(** * Flowable layout, rendering protocol, pages and spanners of neoscore/brown

    A shallow embedding of the layout core of the brown/neoscore music
    engraving library.  Lengths of the layout subsystem are integer
    multiples of one graphic unit ([Z]); the spanner length, which goes
    through a square root, is stated over [R]; the Qt clipping rectangle
    and the repetition count of repeating text are stated over [Q]. *)

From Stdlib Require Import ZArith List Lia Bool Sorted.
From Stdlib Require Import QArith Qround.
From Stdlib Require Import Reals Lra.
From Stdlib Require Strings.String.
Import ListNotations.

Open Scope Z_scope.

(* ------------------------------------------------------------------ *)
(** ** Paper, frame geometry and break controllers *)

(** Paper geometry (brown.core.paper.Paper, consumed as a value struct). *)
Record paper := mk_paper {
  paper_width : Z;
  paper_height : Z;
  margin_left : Z;
  margin_top : Z;
  live_width : Z;
  live_height : Z
}.

(** The geometry of a FlowableFrame: [FlowableFrame(x, y, width, height,
    y_padding)] as constructed in tests/core/test_flowable_frame.py.
    [frame_width] is the total logical length of the frame. *)
Record flowable_frame := mk_frame {
  frame_x : Z;
  frame_y : Z;
  frame_width : Z;
  frame_height : Z;
  frame_y_padding : Z
}.

(** AutoNewLine / AutoNewPage. *)
Inductive controller :=
  | NewLine (x : Z) (length : Z) (margin_above_next : Z)
  | NewPage (x : Z) (length : Z).

Definition ctrl_x (c : controller) : Z :=
  match c with NewLine x _ _ | NewPage x _ => x end.

Definition ctrl_length (c : controller) : Z :=
  match c with NewLine _ l _ | NewPage _ l => l end.

Definition ctrl_margin_above_next (c : controller) : Z :=
  match c with NewLine _ _ m => m | NewPage _ _ => 0 end.

Definition is_new_page (c : controller) : bool :=
  match c with NewPage _ _ => true | NewLine _ _ _ => false end.

(** Modelled from the spec: FlowableFrame._generate_auto_layout_controllers
    (brown/core/flowable_frame.py is not part of the sources).  Spec 4.1:
    the progress starts at the end of the first line (live width minus the
    frame's starting x offset); while the progress has not reached the
    frame's length a controller is emitted there, a NewPage once the page's
    budget of [floor(live_height / (line_height + padding))] lines is used
    up and a NewLine (with the padding as margin) otherwise; every following
    line has the full live width.  Stops as soon as the progress reaches the
    length, so content ending exactly at a boundary gets no trailing
    controller.  [fuel] bounds the Python [while] loop. *)
Fixpoint gen_controllers (pp : paper) (fr : flowable_frame)
    (fuel : nat) (x_progress : Z) (line_on_page : Z) : list controller :=
  match fuel with
  | O => []
  | S fuel' =>
      if frame_width fr <=? x_progress then []
      else
        let lines_per_page :=
          live_height pp / (frame_height fr + frame_y_padding fr) in
        if lines_per_page <=? line_on_page + 1 then
          NewPage x_progress (live_width pp)
            :: gen_controllers pp fr fuel' (x_progress + live_width pp) 0
        else
          NewLine x_progress (live_width pp) (frame_y_padding fr)
            :: gen_controllers pp fr fuel' (x_progress + live_width pp)
                 (line_on_page + 1)
  end.

Definition first_line_end (pp : paper) (fr : flowable_frame) : Z :=
  live_width pp - frame_x fr.

Definition layout_fuel (pp : paper) (fr : flowable_frame) : nat :=
  S (Z.to_nat (frame_width fr - first_line_end pp fr)).

(** [FlowableFrame.auto_layout_controllers] (freshly generated). *)
Definition auto_layout_controllers (pp : paper) (fr : flowable_frame)
  : list controller :=
  gen_controllers pp fr (layout_fuel pp fr) (first_line_end pp fr) 0.

(** Slicing [[start, stop)] at the trigger positions [ts]: the lengths of
    the successive segments. *)
Fixpoint slice_lengths (prev : Z) (ts : list Z) (stop : Z) : list Z :=
  match ts with
  | [] => [stop - prev]
  | t :: ts' => (t - prev) :: slice_lengths t ts' stop
  end.

Definition triggers (cs : list controller) : list Z := map ctrl_x cs.

Definition sumZ (l : list Z) : Z := fold_right Z.add 0 l.

(* ------------------------------------------------------------------ *)
(** ** Document and pages *)

(** Modelled from the spec: the global Document (brown/core/document.py
    is not part of the sources): its paper and the fixed visual gap
    between consecutive pages laid out in a single row. *)
Record document := mk_document {
  doc_paper : paper;
  page_display_gap : Z
}.

Definition point : Type := (Z * Z)%type.

Definition padd (p q : point) : point := (fst p + fst q, snd p + snd q).

(** Modelled from the spec: Document._page_origin_in_doc_space — the
    top-left canvas position of page [i], a function of the index, the
    paper width and the inter-page gap only (spec 4.4). *)
Definition page_origin_in_doc_space (d : document) (i : nat) : point :=
  (Z.of_nat i * (paper_width (doc_paper d) + page_display_gap d), 0).

(* ------------------------------------------------------------------ *)
(** ** Local space to document space *)

(** Python's [l[i]]: a negative index counts from the end; an index out
    of range raises [IndexError] ([None]). *)
Definition py_index {A : Type} (l : list A) (i : Z) : option A :=
  if i <? 0 then
    if 0 <=? Z.of_nat (length l) + i
    then nth_error l (Z.to_nat (Z.of_nat (length l) + i))
    else None
  else nth_error l (Z.to_nat i).

(** Modelled from the spec: FlowableFrame._last_break_index_at — a linear
    scan over the ordered controllers giving the index of the last one
    whose trigger is [<= x]; [-1] when [x] lies on the first line. *)
Fixpoint last_break_from (i : Z) (cs : list controller) (x : Z) (acc : Z)
  : Z :=
  match cs with
  | [] => acc
  | c :: cs' => if ctrl_x c <=? x then last_break_from (i + 1) cs' x i
                else acc
  end.

Definition last_break_index_at (cs : list controller) (x : Z) : Z :=
  last_break_from 0 cs x (-1).

(** Start (local x) and width of line [li] ([-1] is the first line, which
    starts at 0 and is shortened by the frame's x offset). *)
Definition line_start_and_width (pp : paper) (fr : flowable_frame)
    (cs : list controller) (li : Z) : Z * Z :=
  if li <? 0 then (0, first_line_end pp fr)
  else match nth_error cs (Z.to_nat li) with
       | Some c => (ctrl_x c, ctrl_length c)
       | None => (0, first_line_end pp fr)
       end.

(** Modelled from the spec: FlowableFrame._x_pos_rel_to_line_end — the
    position of [x] relative to the end of its line.  The sign follows
    the caller GraphicObject._render_flowable (and spec 4.2): negative
    before the line's end, since the before-break slice stops at
    [start - _x_pos_rel_to_line_end(x)]. *)
Definition x_pos_rel_to_line_end (pp : paper) (fr : flowable_frame)
    (cs : list controller) (x : Z) : Z :=
  let '(start, width) :=
    line_start_and_width pp fr cs (last_break_index_at cs x) in
  (x - start) - width.

Definition count_new_pages (cs : list controller) : nat :=
  length (filter is_new_page cs).

(** Number of NewLine controllers since the last NewPage. *)
Definition lines_since_page (cs : list controller) : Z :=
  fold_left (fun n c => if is_new_page c then 0 else n + 1) cs 0.

(** Modelled from the spec: FlowableFrame._local_space_to_doc_space.  The
    line of [x] is found by [last_break_index_at]; its page is the number
    of NewPage controllers up to it, its row on that page the number of
    NewLine controllers since the last NewPage; the result is the page
    origin plus the live-area margins plus (offset of [x] in its line,
    row * (line height + padding) + y).  The first line is offset by the
    frame's own x, the first page by the frame's own y. *)
Definition local_space_to_doc_space (d : document) (fr : flowable_frame)
    (cs : list controller) (p : point) : point :=
  let pp := doc_paper d in
  let '(x, y) := p in
  let li := last_break_index_at cs x in
  if li <? 0 then
    let '(ox, oy) := page_origin_in_doc_space d 0 in
    (ox + margin_left pp + frame_x fr + x,
     oy + margin_top pp + frame_y fr + y)
  else
    let upto := firstn (S (Z.to_nat li)) cs in
    let pg := count_new_pages upto in
    let row := lines_since_page upto in
    let '(start, _) := line_start_and_width pp fr cs li in
    let '(ox, oy) := page_origin_in_doc_space d pg in
    (ox + margin_left pp + (x - start),
     oy + margin_top pp + (if (pg =? 0)%nat then frame_y fr else 0)
       + row * (frame_height fr + frame_y_padding fr) + y).

(** The frame as a stateful object: its geometry and the lazily filled
    cache of break controllers. *)
Record frame_state := mk_frame_state {
  fs_document : document;
  fs_frame : flowable_frame;
  fs_cache : option (list controller)
}.

Definition St (A : Type) : Type := frame_state -> A * frame_state.

Definition st_ret {A : Type} (a : A) : St A := fun s => (a, s).

Definition st_bind {A B : Type} (m : St A) (k : A -> St B) : St B :=
  fun s => let '(a, s') := m s in k a s'.

Notation "x <-- m ;; k" := (st_bind m (fun x => k))
  (at level 61, m at next level, right associativity).

Definition st_get : St frame_state := fun s => (s, s).

(** Modelled from the spec (section 5): the controllers are computed on
    first access and cached. *)
Definition get_auto_layout_controllers : St (list controller) :=
  fun s =>
    match fs_cache s with
    | Some cs => (cs, s)
    | None =>
        let cs := auto_layout_controllers (doc_paper (fs_document s))
                    (fs_frame s) in
        (cs, mk_frame_state (fs_document s) (fs_frame s) (Some cs))
    end.

Definition local_space_to_doc_space_st (p : point) : St point :=
  s <-- st_get ;;
  cs <-- get_auto_layout_controllers ;;
  st_ret (local_space_to_doc_space (fs_document s) (fs_frame s) cs p).

(* ------------------------------------------------------------------ *)
(** ** Graphic objects and the flowable rendering protocol *)

Inductive node_kind :=
  | PlainObject
  | FlowableFrameObject (fr : flowable_frame).

(** A GraphicObject: [pos], [breakable_width] and [parent]; the object
    tree is a list of nodes, a parent is an index into it. *)
Record graphic_object := mk_graphic_object {
  g_pos : point;
  g_breakable_width : Z;
  g_parent : option nat;
  g_kind : node_kind
}.

Definition object_tree : Type := list graphic_object.

(** GraphicObject.frame: walk the parents until one is a FlowableFrame;
    reaching [None] ([AttributeError] on [None.parent]) gives [None]. *)
Fixpoint frame_from (tree : object_tree) (fuel : nat) (anc : option nat)
  : option flowable_frame :=
  match fuel with
  | O => None
  | S fuel' =>
      match anc with
      | None => None
      | Some a =>
          match nth_error tree a with
          | None => None
          | Some o =>
              match g_kind o with
              | FlowableFrameObject fr => Some fr
              | PlainObject => frame_from tree fuel' (g_parent o)
              end
          end
      end
  end.

Definition frame (tree : object_tree) (o : graphic_object)
  : option flowable_frame :=
  frame_from tree (length tree) (g_parent o).

Inductive phase := PComplete | PBeforeBreak | PAfterBreak | PSpanning.

(** The calls of the four render callbacks, with their arguments. *)
Inductive render_event :=
  | RenderComplete (pos : point)
  | RenderBeforeBreak (start stop : point)
  | RenderAfterBreak (start stop : point)
  | RenderSpanningContinuation (start stop : point).

Definition phase_of (e : render_event) : phase :=
  match e with
  | RenderComplete _ => PComplete
  | RenderBeforeBreak _ _ => PBeforeBreak
  | RenderAfterBreak _ _ => PAfterBreak
  | RenderSpanningContinuation _ _ => PSpanning
  end.

(** Which of the four callbacks a concrete subclass overrides; the
    GraphicObject defaults raise [NotImplementedError]. *)
Record graphic_class := mk_graphic_class {
  impl_complete : bool;
  impl_before_break : bool;
  impl_after_break : bool;
  impl_spanning : bool
}.

Definition implements (c : graphic_class) (ph : phase) : bool :=
  match ph with
  | PComplete => impl_complete c
  | PBeforeBreak => impl_before_break c
  | PAfterBreak => impl_after_break c
  | PSpanning => impl_spanning c
  end.

Definition all_callbacks : graphic_class := mk_graphic_class true true true true.

(** InvisibleObject overrides only [_render_complete]. *)
Definition InvisibleObject : graphic_class :=
  mk_graphic_class true false false false.

Inductive py_error := NotImplementedError (ph : phase) | IndexError.

(** A render call: the callbacks it made, then normal return or the
    exception it raised. *)
Definition M (A : Type) : Type := (list render_event * (py_error + A))%type.

Definition ret {A : Type} (a : A) : M A := ([], inr a).

Definition raise {A : Type} (e : py_error) : M A := ([], inl e).

Definition bind {A B : Type} (m : M A) (k : A -> M B) : M B :=
  match m with
  | (es, inl e) => (es, inl e)
  | (es, inr a) => let '(es', r) := k a in (es ++ es', r)
  end.

Notation "x <- m ;; k" := (bind m (fun x => k))
  (at level 61, m at next level, right associativity).

(** Dispatching one callback on an object of class [c]. *)
Definition call (c : graphic_class) (e : render_event) : M unit :=
  if implements c (phase_of e) then ([e], inr tt)
  else raise (NotImplementedError (phase_of e)).

Section Render.
Variable call_cb : render_event -> M unit.
Variables (d : document) (fr : flowable_frame) (cs : list controller).

Let to_doc := local_space_to_doc_space d fr cs.

(** The [for current_line_i in range(first_line_i + 1, ...)] loop of
    GraphicObject._render_flowable; returns the remaining width and the
    controller [current_line] holds after the loop. *)
Fixpoint spanning_loop (y remaining : Z) (current : controller)
    (rest : list controller) : M (Z * controller) :=
  match rest with
  | [] => ret (remaining, current)
  | cl :: rest' =>
      if ctrl_length cl <? remaining then
        let start := to_doc (ctrl_x cl, y) in
        _ <- call_cb (RenderSpanningContinuation start
                        (padd start (ctrl_length cl, 0))) ;;
        spanning_loop y (remaining - ctrl_length cl) cl rest'
      else ret (remaining, cl)
  end.

(** GraphicObject._render_flowable. *)
Definition render_flowable_with (o : graphic_object) : M unit :=
  let '(x, y) := g_pos o in
  let rel := x_pos_rel_to_line_end (doc_paper d) fr cs x in
  let remaining := g_breakable_width o + rel in
  if remaining <? 0 then call_cb (RenderComplete (to_doc (g_pos o)))
  else
    let first_line_i := last_break_index_at cs x in
    match py_index cs first_line_i with
    | None => raise IndexError
    | Some current =>
        let start := to_doc (g_pos o) in
        _ <- call_cb (RenderBeforeBreak start (padd start (-1 * rel, 0))) ;;
        rc <- spanning_loop y remaining current
                (skipn (Z.to_nat (first_line_i + 1)) cs) ;;
        let start' := to_doc (ctrl_x (snd rc), y) in
        call_cb (RenderAfterBreak start' (padd start' (fst rc, 0)))
    end.
End Render.

(** GraphicObject.render, the callbacks dispatched by [call_cb]. *)
Definition render_with (call_cb : render_event -> M unit) (d : document)
    (tree : object_tree) (o : graphic_object) : M unit :=
  match frame tree o with
  | Some fr =>
      render_flowable_with call_cb d fr
        (auto_layout_controllers (doc_paper d) fr) o
  | None => call_cb (RenderComplete (g_pos o))
  end.

(** [render()] on an object of class [c]. *)
Definition render (c : graphic_class) (d : document) (tree : object_tree)
    (o : graphic_object) : M unit :=
  render_with (call c) d tree o.

(** The reading of "the mapped document-space position" of an object that
    is not in a flowable frame: its [pos] plus the positions of all its
    ancestors. *)
Fixpoint chain_pos (tree : object_tree) (fuel : nat) (anc : option nat)
  : point :=
  match fuel with
  | O => (0, 0)
  | S fuel' =>
      match anc with
      | None => (0, 0)
      | Some a =>
          match nth_error tree a with
          | None => (0, 0)
          | Some p => padd (g_pos p) (chain_pos tree fuel' (g_parent p))
          end
      end
  end.

Definition chain_document_pos (tree : object_tree) (o : graphic_object)
  : point :=
  padd (g_pos o) (chain_pos tree (length tree) (g_parent o)).


(** The run of an object lacking some callbacks, read off the run with all
    four: the callbacks up to the first one its class does not implement,
    which raises [NotImplementedError] for that phase. *)
Fixpoint stop_at_missing {A : Type} (c : graphic_class)
    (es : list render_event) (r : py_error + A) : M A :=
  match es with
  | [] => ([], r)
  | e :: es' =>
      if implements c (phase_of e) then
        let '(es'', r') := stop_at_missing c es' r in (e :: es'', r')
      else ([], inl (NotImplementedError (phase_of e)))
  end.

Definition restrict {A : Type} (c : graphic_class) (m : M A) : M A :=
  stop_at_missing c (fst m) (snd m).

(* ------------------------------------------------------------------ *)
(** ** Page supplier *)

(** neoscore.core.page.Page: its canvas position and its index. *)
Record page := mk_page {
  page_pos : point;
  page_index : nat
}.

(** The Page created for index [i]: at its origin in document space. *)
Definition new_page (d : document) (i : nat) : page :=
  mk_page (page_origin_in_doc_space d i) i.

(** Modelled from the spec: PageSupplier.__getitem__ / page_at (the page
    supplier is not part of the sources) — returns the existing page, or
    appends the pages [len(pages) .. index] one by one in ascending order
    ([for i in range(len(pages), index + 1): pages.append(Page(...))]). *)
Definition page_at (d : document) (pages : list page) (index : nat)
  : page * list page :=
  let pages' :=
    if (index <? length pages)%nat then pages
    else fold_left (fun ps i => ps ++ [new_page d i])
           (seq (length pages) (S index - length pages)) pages in
  (nth index pages' (new_page d index), pages').

(* ------------------------------------------------------------------ *)
(** ** Spanner length *)

Section SpannerModel.
Local Open Scope R_scope.

(** Modelled from the spec: the units of brown.utils.units and
    [Point.to_unit] (not part of the sources).  Length unit types; ratios
    to the base graphic unit (points). *)
Inductive unit_kind := GraphicUnit | Mm | Inch.

Definition unit_ratio (k : unit_kind) : R :=
  match k with
  | GraphicUnit => 1
  | Mm => 72 / 25.4
  | Inch => 72
  end.

(** A [Unit] value: its type and its numeric [value]. *)
Record unit_val := mk_unit { u_kind : unit_kind; u_value : R }.

Definition to_base (u : unit_val) : R := u_value u * unit_ratio (u_kind u).

Record upoint := mk_upoint { ux : unit_val; uy : unit_val }.

Definition rpoint : Type := (R * R)%type.


Definition base_point (p : upoint) : rpoint := (to_base (ux p), to_base (uy p)).

(** [Point.to_unit(k)]: both coordinates expressed in unit type [k]. *)
Definition rpoint_to_unit (k : unit_kind) (p : rpoint) : rpoint :=
  (fst p / unit_ratio k, snd p / unit_ratio k).

Record spanner_node := mk_spanner_node {
  sn_pos : upoint;
  sn_parent : option nat
}.

(** The Spanner mixin on the object [sp_owner]: [end_pos] and
    [end_parent] (the owner itself when none is given). *)
Record spanner := mk_spanner {
  sp_owner : nat;
  sp_end_pos : upoint;
  sp_end_parent : nat
}.

(** [Spanner.__init__]: [end_parent if end_parent else self]. *)
Definition make_spanner (owner : nat) (end_pos : upoint)
    (end_parent : option nat) : spanner :=
  mk_spanner owner end_pos
    (match end_parent with Some p => p | None => owner end).

Definition euclid (p : rpoint) : R := sqrt (fst p * fst p + snd p * snd p).

(** The error raised by [Spanner.length]. *)
Inductive spanner_error := AttributeError.

(** [Spanner.length] on the owner node [self].  With [end_parent == self]
    the end position is the relative stop; otherwise the code calls
    [GraphicObject.map_between_items], an attribute the GraphicObject of
    the sources does not define, which raises [AttributeError]. *)
Definition spanner_length (self : spanner_node) (sp : spanner)
  : spanner_error + unit_val :=
  let k := u_kind (ux (sn_pos self)) in
  if Nat.eqb (sp_end_parent sp) (sp_owner sp)
  then
    let rs := rpoint_to_unit k (base_point (sp_end_pos sp)) in
    inr (mk_unit k (sqrt (fst rs ^ 2 + snd rs ^ 2)))
  else inl AttributeError.
End SpannerModel.

(* ------------------------------------------------------------------ *)
(** ** Qt clipping path *)

Section ClippingModel.
Local Open Scope Q_scope.

Record qrectf := mk_qrectf { qr_x : Q; qr_y : Q; qr_w : Q; qr_h : Q }.

(** QClippingPath.calculate_bounding_rect; [None] is Python's [None]. *)
Definition calculate_bounding_rect (bounding_rect : qrectf)
    (clip_start_x : Q) (clip_width : option Q) (padding : Q) : qrectf :=
  let resolved_clip_start_x := qr_x bounding_rect + clip_start_x in
  let resolved_clip_width :=
    match clip_width with
    | Some w => w
    | None => qr_w bounding_rect - resolved_clip_start_x
    end in
  mk_qrectf (- padding) (qr_y bounding_rect - padding)
    (resolved_clip_width + padding * 2) (qr_h bounding_rect + padding * 2).
End ClippingModel.

(* ------------------------------------------------------------------ *)
(** ** Repeating music text *)

Section RepeatingModel.
Local Open Scope Q_scope.

(** Python's [int()] on a number: truncation toward zero. *)
Definition py_int (q : Q) : Z := Z.quot (Qnum q) (Zpos (Qden q)).

(** RepeatingMusicTextLine._repetitions_needed:
    [int((self.length / base_width).value)]; a zero width raises
    [ZeroDivisionError] ([None]). *)
Definition repetitions_needed (length base_width : Q) : option Z :=
  if Qeq_bool base_width 0 then None
  else Some (py_int (length / base_width)).

Fixpoint string_repeat (s : String.string) (n : nat) : String.string :=
  match n with
  | O => String.EmptyString
  | S n' => String.append s (string_repeat s n')
  end.

(** Python's [str * n]: empty for [n <= 0]. *)
Definition py_str_mul (s : String.string) (n : Z) : String.string :=
  string_repeat s (Z.to_nat n).

(** The total width of the drawn text: as many copies of the repeated
    text as [text * repetitions] holds, each [base_width] wide. *)
Definition drawn_width (base_width : Q) (repetitions : Z) : Q :=
  inject_Z (Z.of_nat (Z.to_nat repetitions)) * base_width.
End RepeatingModel.

(* ------------------------------------------------------------------ *)
(** ** Sample configurations *)

(** A paper with a live area 100 units wide and 257 high, pages 210 wide
    and 150 apart. *)
Definition sample_document : document :=
  mk_document (mk_paper 210 297 20 20 100 257) 150.

(** An object tree whose node 0 is a FlowableFrame at offset 0 of length
    [len], line height 50 and padding 20. *)
Definition sample_tree (len : Z) : object_tree :=
  [mk_graphic_object (0, 0) 0 None
     (FlowableFrameObject (mk_frame 0 0 len 50 20))].

(** An object inside the frame of [sample_tree]. *)
Definition object_in_frame (x y bw : Z) : graphic_object :=
  mk_graphic_object (x, y) bw (Some 0%nat) PlainObject.


(* ------------------------------------------------------------------ *)
(** ** Widths of the partial render calls *)

(** The horizontal extent [stop.x - start.x] of a partial render call. *)
Definition slice_width (e : render_event) : Z :=
  match e with
  | RenderComplete _ => 0
  | RenderBeforeBreak start stop
  | RenderAfterBreak start stop
  | RenderSpanningContinuation start stop => fst stop - fst start
  end.

(** The spanning continuation _render_flowable makes for the whole line
    [cl]: from the mapped line start over the line's length. *)
Definition span_of (to_doc : point -> point) (y : Z) (cl : controller)
  : render_event :=
  let start := to_doc (ctrl_x cl, y) in
  RenderSpanningContinuation start (padd start (ctrl_length cl, 0)).

(* ------------------------------------------------------------------ *)
(** ** Positions relative to the origin and to other objects *)

(** Point arithmetic of brown.utils.point.Point: componentwise. *)
Definition psub (p q : point) : point := (fst p - fst q, snd p - snd q).

Definition pscale (p : point) (k : Z) : point := (fst p * k, snd p * k).

Section Positions.
(** [frame._local_space_to_doc_space] of each FlowableFrame. *)
Variable to_doc : flowable_frame -> point -> point.

(** GraphicObject.document_pos; [None] is the [NotImplementedError]
    raised for an object outside any flowable frame. *)
Definition document_pos (tree : object_tree) (o : graphic_object)
  : option point :=
  match frame tree o with
  | Some fr => Some (to_doc fr (g_pos o))
  | None => None
  end.

(** The [while current is not None] loop of
    GraphicObject.pos_relative_to_origin: add [current.pos], move to
    [current.parent]; a FlowableFrame parent short-circuits to the frame's
    mapping of [self.pos]; past the last ancestor, [pos * -1].  The fuel
    bounds the walk as in [frame_from]. *)
Fixpoint pos_rel_origin_loop (tree : object_tree) (fuel : nat)
    (self_pos acc : point) (cur : graphic_object) : point :=
  let acc' := padd acc (g_pos cur) in
  match fuel with
  | O => pscale acc' (-1)
  | S fuel' =>
      match g_parent cur with
      | None => pscale acc' (-1)
      | Some a =>
          match nth_error tree a with
          | None => pscale acc' (-1)
          | Some p =>
              match g_kind p with
              | FlowableFrameObject fr => to_doc fr self_pos
              | PlainObject => pos_rel_origin_loop tree fuel' self_pos acc' p
              end
          end
      end
  end.

(** GraphicObject.pos_relative_to_origin. *)
Definition pos_relative_to_origin (tree : object_tree) (o : graphic_object)
  : point :=
  pos_rel_origin_loop tree (length tree) (g_pos o) (0, 0) o.

(** GraphicObject.pos_relative_to_item:
    [other.pos_relative_to_origin() - self.pos_relative_to_origin()]. *)
Definition pos_relative_to_item (tree : object_tree)
    (self other : graphic_object) : point :=
  psub (pos_relative_to_origin tree other) (pos_relative_to_origin tree self).
End Positions.

(* ------------------------------------------------------------------ *)
(** ** The QClippingPath item *)

Section ClippingItem.
Local Open Scope Q_scope.

(** QRectF.translated(dx, dy). *)
Definition qr_translated (r : qrectf) (dx dy : Q) : qrectf :=
  mk_qrectf (qr_x r + dx) (qr_y r + dy) (qr_w r) (qr_h r).

(** The state of a QClippingPath: the path's bounding rect
    ([self.path().boundingRect()]), the scale and pen width set on the
    item, and the attributes __init__ and update_geometry set. *)
Record qclipping_path := mk_qclipping_path {
  qc_path_rect : qrectf;
  qc_scale : Q;
  qc_pen_width : Q;
  qc_clip_start_x : Q;
  qc_clip_width : option Q;
  qc_padding : Q;
  qc_bounding_rect : qrectf;
  qc_clip_rect : qrectf
}.

(** QClippingPath.update_geometry. *)
Definition update_geometry (it : qclipping_path) : qclipping_path :=
  let br := calculate_bounding_rect (qc_path_rect it) (qc_clip_start_x it)
              (qc_clip_width it) (qc_padding it) in
  mk_qclipping_path (qc_path_rect it) (qc_scale it) (qc_pen_width it)
    (qc_clip_start_x it) (qc_clip_width it) (qc_padding it)
    br (qr_translated br (qc_clip_start_x it) 0).

Inductive qt_error := TypeError | ZeroDivisionError.

(** QClippingPath.__init__ on a path with bounding rect [path_rect] and a
    pen of width [pen_width]: [clip_start_x / scale] raises [TypeError]
    for [None] and [ZeroDivisionError] for a zero scale; the rects are
    set by the final [update_geometry] (the placeholders are never
    read). *)
Definition qclipping_path_init (path_rect : qrectf)
    (clip_start_x : option Q) (clip_width : option Q) (scale pen_width : Q)
  : qt_error + qclipping_path :=
  match clip_start_x with
  | None => inl TypeError
  | Some csx =>
      if Qeq_bool scale 0 then inl ZeroDivisionError
      else
        let placeholder := mk_qrectf 0 0 0 0 in
        inr (update_geometry
               (mk_qclipping_path path_rect scale pen_width (csx / scale)
                  (option_map (fun w => w / scale) clip_width)
                  (pen_width / scale) placeholder placeholder))
  end.

(** The painter calls of QClippingPath.paint (with [DEBUG] off). *)
Inductive painter_op :=
  | PTranslate (dx dy : Q)
  | PSetClipRect (r : qrectf)
  | PDrawPath.

Definition paint (it : qclipping_path) : list painter_op :=
  (if negb (Qeq_bool (qc_clip_start_x it) 0)
   then [PTranslate (- qc_clip_start_x it) 0] else []) ++
  (match qc_clip_width it with
   | Some _ => [PSetClipRect (qc_clip_rect it)]
   | None => []
   end) ++ [PDrawPath].

(** A QPainter's translation and its clip region in item coordinates
    (a clip rect is given in the painter's translated coordinates). *)
Record painter := mk_painter {
  pt_dx : Q;
  pt_dy : Q;
  pt_clip : option qrectf
}.

Definition painter_step (s : painter) (op : painter_op) : painter :=
  match op with
  | PTranslate dx dy => mk_painter (pt_dx s + dx) (pt_dy s + dy) (pt_clip s)
  | PSetClipRect r =>
      mk_painter (pt_dx s) (pt_dy s) (Some (qr_translated r (pt_dx s) (pt_dy s)))
  | PDrawPath => s
  end.

Definition run_painter (ops : list painter_op) : painter :=
  fold_left painter_step ops (mk_painter 0 0 None).

Definition qr_eq (r s : qrectf) : Prop :=
  qr_x r == qr_x s /\ qr_y r == qr_y s /\ qr_w r == qr_w s /\ qr_h r == qr_h s.
End ClippingItem.

(* ------------------------------------------------------------------ *)
(** ** Text alignment *)

Section TextModel.
Local Open Scope Q_scope.

(** The members of HorizontalAlignment and VerticalAlignment that
    neoscore.core.text distinguishes. *)
Inductive horizontal_alignment := LEFT | CENTER | RIGHT.
Inductive vertical_alignment := BASELINE | VCENTER.

(** A Text object: [_raw_scaled_bounding_rect] (the font's bounding rect
    of the text times the scale), [breakable] and the alignments. *)
Record text_obj := mk_text {
  tx_raw_rect : qrectf;
  tx_breakable : bool;
  tx_halign : horizontal_alignment;
  tx_valign : vertical_alignment
}.

Definition is_left (h : horizontal_alignment) : bool :=
  match h with LEFT => true | _ => false end.

Definition is_baseline (v : vertical_alignment) : bool :=
  match v with BASELINE => true | _ => false end.

(** Text._alignment_offset. *)
Definition alignment_offset (t : text_obj) : Q * Q :=
  if is_left (tx_halign t) && is_baseline (tx_valign t) then (0, 0)
  else
    let br := tx_raw_rect t in
    let x := match tx_halign t with
             | CENTER => (qr_w br / -2) - qr_x br
             | RIGHT => - qr_w br - qr_x br
             | LEFT => 0
             end in
    let y := match tx_valign t with
             | VCENTER => (qr_h br / -2) - qr_y br
             | BASELINE => 0
             end in
    (x, y).

(** Text.bounding_rect. *)
Definition text_bounding_rect (t : text_obj) : qrectf :=
  let raw := tx_raw_rect t in
  let off := alignment_offset t in
  mk_qrectf (qr_x raw + fst off) (qr_y raw + snd off) (qr_w raw) (qr_h raw).

(** Text.breakable_length. *)
Definition breakable_length (t : text_obj) : Q :=
  if tx_breakable t
  then qr_w (text_bounding_rect t) + fst (alignment_offset t)
  else 0.
End TextModel.

(* ================================================================== *)
(** * Proofs *)

(** ** Break-point computation *)

Lemma sumZ_slice_lengths : forall ts prev stop,
  sumZ (slice_lengths prev ts stop) = stop - prev.
Proof.
  induction ts as [|t ts IH]; intros prev stop; simpl.
  - lia.
  - unfold sumZ in *; simpl in *. rewrite IH. lia.
Qed.

Section Generation.
Variables (pp : paper) (fr : flowable_frame).
Let W := live_width pp.
Let L := frame_width fr.
Hypothesis HW : 0 < W.

Lemma gen_controllers_unfold : forall fuel x lop,
  gen_controllers pp fr (S fuel) x lop =
  if L <=? x then []
  else (if live_height pp / (frame_height fr + frame_y_padding fr)
           <=? lop + 1
        then NewPage x W
        else NewLine x W (frame_y_padding fr))
       :: gen_controllers pp fr fuel (x + W)
            (if live_height pp / (frame_height fr + frame_y_padding fr)
                  <=? lop + 1 then 0 else lop + 1).
Proof.
  intros. unfold L, W. simpl.
  destruct (frame_width fr <=? x); [reflexivity|].
  destruct (_ <=? lop + 1); reflexivity.
Qed.

(** Every generated controller triggers at [x + k * W], has a following
    line of length [W], and triggers strictly before the frame's end. *)
Lemma gen_controllers_nth : forall fuel x lop k c,
  nth_error (gen_controllers pp fr fuel x lop) k = Some c ->
  ctrl_x c = x + Z.of_nat k * W /\ ctrl_length c = W /\ ctrl_x c < L.
Proof.
  induction fuel as [|fuel IH]; intros x lop k c Hk.
  - destruct k; discriminate.
  - rewrite gen_controllers_unfold in Hk.
    destruct (Z.leb_spec L x) as [Hx|Hx]; [destruct k; discriminate|].
    destruct k as [|k].
    + simpl in Hk. injection Hk as <-.
      destruct (_ <=? lop + 1); simpl; lia.
    + simpl in Hk. apply IH in Hk. lia.
Qed.

(** With enough fuel the loop runs until the progress reaches [L]:
    the end of the last line is at or past the frame's end. *)
Lemma gen_controllers_covers : forall fuel x lop,
  Z.of_nat fuel > L - x ->
  L <= x + Z.of_nat (length (gen_controllers pp fr fuel x lop)) * W.
Proof.
  induction fuel as [|fuel IH]; intros x lop Hf.
  - simpl. lia.
  - rewrite gen_controllers_unfold.
    destruct (Z.leb_spec L x) as [Hx|Hx]; [simpl; lia|].
    simpl length. specialize (IH (x + W)
      (if live_height pp / (frame_height fr + frame_y_padding fr)
            <=? lop + 1 then 0 else lop + 1)).
    lia.
Qed.

Lemma gen_controllers_slices : forall fuel x lop prev,
  Z.of_nat fuel > L - x -> prev <= x -> prev <= L ->
  let ts := triggers (gen_controllers pp fr fuel x lop) in
  Sorted Z.lt ts /\ Forall (fun t => x <= t < L) ts /\
  match slice_lengths prev ts L with
  | s :: rest => 0 <= s <= x - prev /\ Forall (fun s => 0 <= s <= W) rest
  | [] => False
  end.
Proof.
  induction fuel as [|fuel IH]; intros x lop prev Hf Hp HpL; cbv zeta.
  - simpl. repeat split; auto; lia.
  - rewrite gen_controllers_unfold.
    destruct (Z.leb_spec L x) as [Hx|Hx].
    + simpl. repeat split; auto; lia.
    + set (lop' := if live_height pp / (frame_height fr + frame_y_padding fr)
                      <=? lop + 1 then 0 else lop + 1).
      assert (Hc : forall c, ctrl_x c = x -> triggers (c ::
                 gen_controllers pp fr fuel (x + W) lop') =
                 x :: triggers (gen_controllers pp fr fuel (x + W) lop'))
        by (intros c Hc; simpl; rewrite Hc; reflexivity).
      rewrite Hc by (destruct (_ <=? lop + 1); reflexivity).
      destruct (IH (x + W) lop' x) as (Hs & Hall & Hsl); [lia|lia|lia|].
      split; [|split].
      * constructor; [exact Hs|].
        destruct (triggers (gen_controllers pp fr fuel (x + W) lop'))
          as [|t ts] eqn:E; constructor.
        inversion Hall; lia.
      * constructor; [lia|]. eapply Forall_impl; [|exact Hall].
        simpl; intros; lia.
      * simpl. split; [lia|].
        destruct (slice_lengths x _ L) as [|s rest]; [contradiction|].
        destruct Hsl as [Hs1 Hrest]. constructor; [lia|exact Hrest].
Qed.
End Generation.

(** Claim C1.  Break tiling: for a frame of length [L >= 0] whose starting
    x offset lies before the end of the live width [W > 0], the generated
    controllers have strictly increasing triggers, all strictly before [L]
    (so no trailing controller at a boundary); slicing [[0, L)] at them
    gives segments of length at most [W], the first one at most the first
    line's width [W - frame_x] (at most [W] for a non-negative offset);
    the segment lengths sum to [L]; a zero-length frame gets no
    controller. *)
Theorem break_tiling : forall (pp : paper) (fr : flowable_frame),
  0 < live_width pp -> frame_x fr < live_width pp -> 0 <= frame_width fr ->
  let cs := auto_layout_controllers pp fr in
  let segs := slice_lengths 0 (triggers cs) (frame_width fr) in
  Sorted Z.lt (triggers cs) /\
  Forall (fun t => t < frame_width fr) (triggers cs) /\
  match segs with
  | s :: rest => 0 <= s <= live_width pp - frame_x fr /\
                 Forall (fun s => 0 <= s <= live_width pp) rest
  | [] => False
  end /\
  (0 <= frame_x fr -> Forall (fun s => s <= live_width pp) segs) /\
  sumZ segs = frame_width fr /\
  (frame_width fr = 0 -> cs = []).
Proof.
  intros pp fr HW Hoff HL cs segs.
  destruct (gen_controllers_slices pp fr HW (layout_fuel pp fr)
              (first_line_end pp fr) 0 0) as (Hs & Hall & Hsl).
  { unfold layout_fuel. rewrite Nat2Z.inj_succ.
    pose proof (Z2Nat.inj_max (frame_width fr - first_line_end pp fr) 0). lia. }
  { unfold first_line_end. lia. }
  { lia. }
  fold (auto_layout_controllers pp fr) in Hs, Hall, Hsl.
  fold cs in Hs, Hall, Hsl. fold segs in Hsl.
  unfold first_line_end in Hsl. rewrite Z.sub_0_r in Hsl.
  split; [exact Hs|]. split.
  { eapply Forall_impl; [|exact Hall]. simpl; intros; lia. }
  split; [exact Hsl|]. split.
  { intros H0. destruct segs as [|s rest]; [contradiction|].
    destruct Hsl as [Hs1 Hrest]. constructor; [lia|].
    eapply Forall_impl; [|exact Hrest]. simpl; intros; lia. }
  split.
  { unfold segs. rewrite sumZ_slice_lengths. lia. }
  intros HL0. unfold cs, auto_layout_controllers, layout_fuel.
  simpl. unfold first_line_end.
  destruct (Z.leb_spec (frame_width fr) (live_width pp - frame_x fr)); [reflexivity|lia].
Qed.

(** ** Structure of the generated controllers *)

Lemma layout_fuel_enough : forall pp fr,
  Z.of_nat (layout_fuel pp fr) > frame_width fr - first_line_end pp fr.
Proof.
  intros pp fr. unfold layout_fuel. rewrite Nat2Z.inj_succ.
  pose proof (Z2Nat.inj_max (frame_width fr - first_line_end pp fr) 0). lia.
Qed.

Lemma auto_layout_controllers_shape : forall pp fr,
  0 < live_width pp ->
  let cs := auto_layout_controllers pp fr in
  (forall k c, nth_error cs k = Some c ->
     ctrl_x c = first_line_end pp fr + Z.of_nat k * live_width pp /\
     ctrl_length c = live_width pp /\ ctrl_x c < frame_width fr) /\
  frame_width fr <= first_line_end pp fr
                    + Z.of_nat (length cs) * live_width pp.
Proof.
  intros pp fr HW cs. split.
  - intros k c Hk. exact (gen_controllers_nth pp fr _ _ _ _ _ Hk).
  - apply gen_controllers_covers; [exact HW|]. apply layout_fuel_enough.
Qed.

(** The linear scan stops at the first trigger past [x]. *)
Lemma last_break_from_spec : forall cs i x acc,
  (last_break_from i cs x acc = acc /\
   forall c, hd_error cs = Some c -> x < ctrl_x c) \/
  (exists k c, last_break_from i cs x acc = i + Z.of_nat k /\
     nth_error cs k = Some c /\ ctrl_x c <= x /\
     forall c', nth_error cs (S k) = Some c' -> x < ctrl_x c').
Proof.
  induction cs as [|c cs IH]; intros i x acc; simpl.
  - left. split; [reflexivity|]. intros c H; discriminate.
  - destruct (Z.leb_spec (ctrl_x c) x) as [Hc|Hc].
    + right. destruct (IH (i + 1) x i) as [[E Hhd]|(k & c' & E & Hk & Hle & Hnext)].
      * exists O, c. rewrite E. repeat split; [lia|assumption|].
        intros c' Hc'. apply Hhd. destruct cs; simpl in *; congruence.
      * exists (S k), c'. rewrite E. repeat split; [lia|assumption|assumption|].
        exact Hnext.
    + left. split; [reflexivity|]. intros c' H; injection H as <-; lia.
Qed.

(** Inside the frame ([x < L]) a position lies strictly before the end of
    its line. *)
Lemma x_pos_rel_to_line_end_neg : forall pp fr x,
  0 < live_width pp -> x < frame_width fr ->
  x_pos_rel_to_line_end pp fr (auto_layout_controllers pp fr) x < 0.
Proof.
  intros pp fr x HW Hx.
  destruct (auto_layout_controllers_shape pp fr HW) as [Hnth Hcov].
  set (cs := auto_layout_controllers pp fr) in *.
  unfold x_pos_rel_to_line_end, last_break_index_at, line_start_and_width.
  destruct (last_break_from_spec cs 0 x (-1))
    as [[E Hhd]|(k & c & E & Hk & Hle & Hnext)]; rewrite E.
  - simpl. destruct cs as [|c cs'] eqn:Ecs.
    + simpl in Hcov. lia.
    + specialize (Hhd c eq_refl). destruct (Hnth O c eq_refl) as [Hx0 _].
      simpl in Hx0. lia.
  - replace (0 + Z.of_nat k <? 0) with false by (symmetry; apply Z.ltb_ge; lia).
    rewrite Z.add_0_l, Nat2Z.id, Hk.
    destruct (Hnth k c Hk) as (Hcx & Hcl & _).
    destruct (nth_error cs (S k)) as [c'|] eqn:Hk'.
    + specialize (Hnext c' eq_refl). destruct (Hnth (S k) c' Hk') as [Hcx' _].
      rewrite Nat2Z.inj_succ in Hcx'. lia.
    + apply nth_error_None in Hk'.
      assert (length cs = S k).
      { assert (k < length cs)%nat by (apply nth_error_Some; congruence). lia. }
      rewrite H in Hcov. rewrite Nat2Z.inj_succ in Hcov. lia.
Qed.

(** ** Rendering *)

Lemma render_not_in_flowable : forall c d tree o,
  frame tree o = None ->
  render c d tree o = call c (RenderComplete (g_pos o)).
Proof.
  intros c d tree o H. unfold render, render_with. rewrite H. reflexivity.
Qed.

(** Claim C2 (code defect).  An object outside any flowable frame is
    rendered by exactly one callback, [_render_complete], called with the
    object's own parent-relative [pos], not with its document position:
    a child at [pos = (1, 0)] of a root object at [(5, 0)] (no flowable
    frame anywhere) is rendered at [(1, 0)], while its position resolved
    through the ancestor chain is [(6, 0)]. *)
Lemma render_outside_flowable_uses_local_pos :
  (forall c d tree o,
     frame tree o = None -> impl_complete c = true ->
     render c d tree o = ([RenderComplete (g_pos o)], inr tt)) /\
  (let tree := [mk_graphic_object (5, 0) 0 None PlainObject] in
   let o := mk_graphic_object (1, 0) 0 (Some 0%nat) PlainObject in
   render all_callbacks sample_document tree o
     = ([RenderComplete (1, 0)], inr tt) /\
   chain_document_pos tree o = (6, 0)).
Proof.
  split.
  - intros c d tree o Hfr Hc.
    rewrite render_not_in_flowable by exact Hfr.
    unfold call. simpl. rewrite Hc. reflexivity.
  - split; vm_compute; reflexivity.
Qed.

(** Claim C3 (as amended).  An object with [breakable_width = 0] whose
    local x lies inside the frame's extent ([x < L]) is rendered by a
    single [_render_complete] call at its mapped document position; no
    split callback is made. *)
Theorem render_zero_width_no_split : forall c d tree o fr,
  frame tree o = Some fr -> 0 < live_width (doc_paper d) ->
  g_breakable_width o = 0 -> fst (g_pos o) < frame_width fr ->
  render c d tree o =
    call c (RenderComplete (local_space_to_doc_space d fr
              (auto_layout_controllers (doc_paper d) fr) (g_pos o))).
Proof.
  intros c d tree o fr Hfr HW Hbw Hx.
  unfold render, render_with. rewrite Hfr. unfold render_flowable_with.
  destruct o as [[x y] bw par k]; simpl in *. subst bw.
  pose proof (x_pos_rel_to_line_end_neg (doc_paper d) fr x HW Hx).
  replace (0 + _ <? 0) with true by (symmetry; apply Z.ltb_lt; lia).
  reflexivity.
Qed.

(** Claim C3 refuted as stated: in a frame of length 200 on a live width
    of 100, a zero-width object placed at the frame's end (local x = 200,
    the end of the last line) is split: RenderBeforeBreak and
    RenderAfterBreak are called, RenderComplete is not. *)
Lemma render_zero_width_at_frame_end_splits :
  render all_callbacks sample_document (sample_tree 200)
    (object_in_frame 200 3 0)
  = ([RenderBeforeBreak (120, 93) (120, 93);
      RenderAfterBreak (20, 93) (20, 93)], inr tt).
Proof. vm_compute. reflexivity. Qed.

Lemma py_index_last : forall {A : Type} (l : list A),
  l <> [] -> exists a, py_index l (-1) = Some a.
Proof.
  intros A l Hl. unfold py_index. simpl.
  destruct l as [|a l]; [congruence|].
  replace (0 <=? Z.of_nat (length (a :: l)) + -1) with true
    by (symmetry; apply Z.leb_le; simpl length; lia).
  destruct (nth_error (a :: l) (Z.to_nat (Z.of_nat (length (a :: l)) + -1)))
    as [b|] eqn:E; [eauto|].
  apply nth_error_None in E. simpl length in E. lia.
Qed.

(** Claim C4 (as amended).  In a frame starting at local x offset 0 whose
    length exceeds the live width [W > 10], an object at local
    x = [W - 1] with [breakable_width = 10] makes exactly two callbacks:
    RenderBeforeBreak from its position to one unit further, which is the
    right edge of the first line's live area, then RenderAfterBreak from
    the origin of the next line (offset 0 within it) over the remaining
    9 units; no RenderSpanningContinuation. *)
Theorem render_across_one_break : forall c d tree o fr y,
  frame tree o = Some fr -> 10 < live_width (doc_paper d) ->
  frame_x fr = 0 -> live_width (doc_paper d) < frame_width fr ->
  g_pos o = (live_width (doc_paper d) - 1, y) -> g_breakable_width o = 10 ->
  impl_before_break c = true -> impl_after_break c = true ->
  let W := live_width (doc_paper d) in
  let cs := auto_layout_controllers (doc_paper d) fr in
  let s1 := local_space_to_doc_space d fr cs (W - 1, y) in
  let s2 := local_space_to_doc_space d fr cs (W, y) in
  render c d tree o =
    ([RenderBeforeBreak s1 (padd s1 (1, 0));
      RenderAfterBreak s2 (padd s2 (9, 0))], inr tt) /\
  fst (padd s1 (1, 0)) =
    fst (page_origin_in_doc_space d 0) + margin_left (doc_paper d) + W /\
  fst s2 = fst (page_origin_in_doc_space d (count_new_pages (firstn 1 cs)))
           + margin_left (doc_paper d).
Proof.
  intros c d tree o fr y Hfr HW Hx0 HL Hpos Hbw Hb Ha W cs s1 s2.
  assert (HW0 : 0 < live_width (doc_paper d)) by lia.
  destruct (auto_layout_controllers_shape (doc_paper d) fr HW0)
    as [Hnth Hcov].
  fold cs in Hnth, Hcov. unfold first_line_end in Hnth, Hcov.
  rewrite Hx0, Z.sub_0_r in Hnth, Hcov. fold W in Hnth, Hcov, HW, HL.
  assert (Ecs : exists c0 rest, cs = c0 :: rest).
  { destruct cs as [|c0 rest]; [simpl in Hcov; lia|eauto]. }
  destruct Ecs as (c0 & rest & Ecs).
  rewrite Ecs in Hnth.
  destruct (Hnth O c0 eq_refl) as (Hc0x & Hc0l & _).
  simpl in Hc0x. rewrite Z.add_0_r in Hc0x.
  assert (Hrest : forall c1', hd_error rest = Some c1' -> ctrl_x c1' = 2 * W).
  { intros c1' H1. destruct rest as [|c1'' rest']; [discriminate|].
    injection H1 as ->. destruct (Hnth 1%nat c1' eq_refl) as [Hx1 _]. lia. }
  assert (H1 : last_break_index_at cs (W - 1) = -1).
  { rewrite Ecs. unfold last_break_index_at. simpl.
    replace (ctrl_x c0 <=? W - 1) with false
      by (symmetry; apply Z.leb_gt; lia). reflexivity. }
  assert (H2 : last_break_index_at cs W = 0).
  { rewrite Ecs. unfold last_break_index_at. simpl.
    replace (ctrl_x c0 <=? W) with true by (symmetry; apply Z.leb_le; lia).
    destruct rest as [|c1' rest']; [reflexivity|]. simpl.
    rewrite (Hrest c1' eq_refl).
    replace (2 * W <=? W) with false by (symmetry; apply Z.leb_gt; lia).
    reflexivity. }
  assert (Hrel : x_pos_rel_to_line_end (doc_paper d) fr cs (W - 1) = -1).
  { unfold x_pos_rel_to_line_end. rewrite H1. simpl.
    unfold first_line_end. fold W. lia. }
  destruct (py_index_last cs) as [cl Hcl]; [rewrite Ecs; discriminate|].
  split; [|split].
  - unfold render, render_with. rewrite Hfr. fold cs.
    unfold render_flowable_with. rewrite Hpos, Hbw. fold W.
    rewrite Hrel. change (10 + -1) with 9. change (9 <? 0) with false.
    cbv iota. rewrite H1, Hcl.
    fold s1. simpl (Z.to_nat (-1 + 1)). simpl skipn.
    assert (Hloop : spanning_loop (call c) d fr cs y 9 cl cs = ret (9, c0)).
    { rewrite Ecs at 2. simpl. rewrite Hc0l.
      replace (W <? 9) with false by (symmetry; apply Z.ltb_ge; lia).
      reflexivity. }
    unfold call at 1. simpl phase_of. simpl implements. rewrite Hb.
    simpl bind. rewrite Hloop. simpl bind. simpl fst. simpl snd.
    rewrite Hc0x. fold s2. unfold call. simpl phase_of.
    simpl implements. rewrite Ha. simpl.
    replace (-1 * -1) with 1 by reflexivity. reflexivity.
  - unfold s1, local_space_to_doc_space. rewrite H1. simpl.
    rewrite Hx0. fold W. lia.
  - unfold s2, local_space_to_doc_space. rewrite H2. simpl.
    unfold line_start_and_width. simpl. rewrite Ecs. simpl. rewrite Hc0x.
    lia.
Qed.

(** Claim C4 refuted as stated: when the frame is no longer than one line
    (length 100 on a live width of 100) there is no next line; the object
    at x = 99 with breakable_width 10 raises IndexError before any
    callback. *)
Lemma render_across_missing_break_raises :
  render all_callbacks sample_document (sample_tree 100)
    (object_in_frame 99 3 10)
  = ([], inl IndexError).
Proof. vm_compute. reflexivity. Qed.

(** ** Mapping determinism *)

(** Claim C5.  Calling the local-to-document mapping twice on the same
    point, the second time on the state the first call left, gives the
    same point, and the second call changes nothing: filling the
    controller cache on first use does not affect results. *)
Theorem local_space_to_doc_space_deterministic : forall (s : frame_state) p,
  let '(r1, s1) := local_space_to_doc_space_st p s in
  let '(r2, s2) := local_space_to_doc_space_st p s1 in
  r1 = r2 /\ s2 = s1.
Proof.
  intros [d fr [cs|]] p; split; reflexivity.
Qed.

(** ** Missing render callbacks *)

Lemma stop_at_missing_error : forall {A : Type} c es (e : py_error),
  exists es', @stop_at_missing A c es (inl e) = (es', inl
    match stop_at_missing c es (@inl py_error A e) with
    | (_, inl e') => e' | (_, inr _) => e end).
Proof.
  intros A c es e. induction es as [|ev es IH]; simpl.
  - eauto.
  - destruct (implements c (phase_of ev)); [|eauto].
    destruct IH as [es' IH]. rewrite IH. eauto.
Qed.

Lemma stop_at_missing_app : forall {A B : Type} c es es' (r : py_error + B)
    (a : A),
  stop_at_missing c (es ++ es') r =
  bind (stop_at_missing c es (inr a)) (fun _ => stop_at_missing c es' r).
Proof.
  intros A B c es es' r a. induction es as [|e es IH]; simpl.
  - destruct (stop_at_missing c es' r). reflexivity.
  - destruct (implements c (phase_of e)); [|reflexivity].
    rewrite IH. destruct (stop_at_missing c es (inr a)) as [p [e0|a0]];
      simpl; [reflexivity|].
    destruct (stop_at_missing c es' r). reflexivity.
Qed.

Lemma stop_at_missing_value : forall {A : Type} c es (a a0 : A) p,
  stop_at_missing c es (inr a) = (p, inr a0) -> a0 = a.
Proof.
  intros A c es a a0. induction es as [|e es IH]; intros p; simpl.
  - congruence.
  - destruct (implements c (phase_of e)); [|discriminate].
    destruct (stop_at_missing c es (inr a)) as [p' r'] eqn:E.
    intros H. injection H as _ ->. exact (IH p' eq_refl).
Qed.

Lemma restrict_bind : forall {A B : Type} c (m : M A) (k : A -> M B),
  restrict c (bind m k) = bind (restrict c m) (fun a => restrict c (k a)).
Proof.
  intros A B c [es [err|a]] k; unfold restrict at 1 2; simpl.
  - induction es as [|e es IH]; simpl; [reflexivity|].
    destruct (implements c (phase_of e)); [|reflexivity].
    destruct (@stop_at_missing_error A c es err) as [es0 E0].
    rewrite E0 in IH |- *. rewrite IH. reflexivity.
  - destruct (k a) as [es' r'] eqn:Ek. simpl.
    rewrite (stop_at_missing_app c es es' r' a).
    destruct (stop_at_missing c es (inr a)) as [p [e0|a0]] eqn:E;
      simpl; [reflexivity|].
    apply stop_at_missing_value in E. subst a0.
    rewrite Ek. reflexivity.
Qed.

Lemma bind_ext : forall {A B : Type} (m : M A) (k1 k2 : A -> M B),
  (forall a, k1 a = k2 a) -> bind m k1 = bind m k2.
Proof.
  intros A B [es [e|a]] k1 k2 H; simpl; [reflexivity|]. rewrite H. reflexivity.
Qed.

Lemma restrict_call : forall c e, restrict c (call all_callbacks e) = call c e.
Proof.
  intros c e. unfold restrict, call.
  destruct e; simpl;
    [destruct (impl_complete c) | destruct (impl_before_break c)
    | destruct (impl_after_break c) | destruct (impl_spanning c)];
    reflexivity.
Qed.

Lemma restrict_spanning_loop : forall c d fr cs y rest remaining current,
  restrict c (spanning_loop (call all_callbacks) d fr cs y remaining current rest)
  = spanning_loop (call c) d fr cs y remaining current rest.
Proof.
  intros c d fr cs y rest. induction rest as [|cl rest IH];
    intros remaining current; cbn [spanning_loop]; [reflexivity|].
  destruct (ctrl_length cl <? remaining); [|reflexivity].
  rewrite restrict_bind, restrict_call. apply bind_ext. intros _. apply IH.
Qed.

Lemma restrict_render_flowable : forall c d fr cs o,
  restrict c (render_flowable_with (call all_callbacks) d fr cs o)
  = render_flowable_with (call c) d fr cs o.
Proof.
  intros c d fr cs [[x y] bw par k]. unfold render_flowable_with.
  cbn [g_pos g_breakable_width].
  destruct (bw + _ <? 0); [apply restrict_call|].
  destruct (py_index cs _); [|reflexivity].
  rewrite restrict_bind, restrict_call. apply bind_ext. intros _.
  rewrite restrict_bind, restrict_spanning_loop. apply bind_ext. intros rc.
  apply restrict_call.
Qed.

(** Claim C8.  A graphic class lacking some of the four callbacks renders
    exactly like a class having all four up to the first callback it
    lacks, where it raises [NotImplementedError] for that phase, and not
    before; a render that never reaches a missing callback behaves exactly
    as with all four (a class that never splits may omit the split
    callbacks).  Constructing an object performs no check. *)
Theorem render_missing_callback_fails_at_phase : forall c d tree o,
  render c d tree o = restrict c (render all_callbacks d tree o) /\
  (Forall (fun e => implements c (phase_of e) = true)
     (fst (render all_callbacks d tree o)) ->
   render c d tree o = render all_callbacks d tree o).
Proof.
  intros c d tree o.
  assert (H : render c d tree o = restrict c (render all_callbacks d tree o)).
  { unfold render, render_with. destruct (frame tree o).
    - symmetry. apply restrict_render_flowable.
    - symmetry. apply restrict_call. }
  split; [exact H|]. intros Hall. rewrite H. unfold restrict.
  destruct (render all_callbacks d tree o) as [es r]. simpl in *. clear H.
  induction es as [|e es IH]; [reflexivity|]. simpl.
  inversion Hall as [|? ? He Hes]; subst. rewrite He.
  rewrite (IH Hes). reflexivity.
Qed.

(** ** Page supplier *)

Lemma fold_left_append_map : forall {A B : Type} (f : A -> B) l acc,
  fold_left (fun ps i => ps ++ [f i]) l acc = acc ++ map f l.
Proof.
  intros A B f l. induction l as [|a l IH]; intros acc; simpl.
  - rewrite app_nil_r. reflexivity.
  - rewrite IH, <- app_assoc. reflexivity.
Qed.

(** Claim C7.  On a supplier holding pages [0 .. n-1] (each at the origin
    of its index), [page_at index] returns page [index] and appends
    exactly the missing pages [n .. index], in ascending order, leaving
    the pages contiguous from 0; a page's origin depends only on its index,
    the paper width and the gap; with paper width 210 and gap 150, asking
    a fresh supplier for page 2 creates pages 0, 1, 2 in that order and
    page 2's origin is 720 to the right of page 0's. *)
Theorem page_supplier_lazy_in_order : forall d n index,
  let pages := map (new_page d) (seq 0 n) in
  page_at d pages index =
    (new_page d index, pages ++ map (new_page d) (seq n (S index - n))) /\
  pages ++ map (new_page d) (seq n (S index - n)) =
    map (new_page d) (seq 0 (Nat.max n (S index))) /\
  page_origin_in_doc_space d index =
    page_origin_in_doc_space
      (mk_document (mk_paper (paper_width (doc_paper d)) 0 0 0 0 0)
         (page_display_gap d)) index /\
  (let d0 := mk_document (mk_paper 210 297 20 20 170 257) 150 in
   page_at d0 [] 2 = (new_page d0 2, [new_page d0 0; new_page d0 1; new_page d0 2]) /\
   fst (page_origin_in_doc_space d0 2) = fst (page_origin_in_doc_space d0 0) + 720).
Proof.
  intros d n index pages.
  assert (Hext : pages ++ map (new_page d) (seq n (S index - n)) =
                 map (new_page d) (seq 0 (Nat.max n (S index)))).
  { unfold pages. rewrite <- map_app.
    replace (Nat.max n (S index)) with (n + (S index - n))%nat by lia.
    rewrite seq_app. reflexivity. }
  split; [|split; [exact Hext|split; [reflexivity|split; reflexivity]]].
  unfold page_at, pages in *. rewrite length_map, length_seq.
  destruct (Nat.ltb_spec index n) as [Hlt|Hge].
  - replace (S index - n)%nat with O by lia. simpl. rewrite app_nil_r.
    rewrite map_nth with (d := index).
    rewrite seq_nth by exact Hlt. reflexivity.
  - rewrite fold_left_append_map. rewrite Hext.
    rewrite map_nth with (d := index). rewrite seq_nth by lia. reflexivity.
Qed.

(** ** Spanner length *)

Section SpannerProofs.
Local Open Scope R_scope.

(** Claim C6 (code defect).  When the end parent is the spanner itself,
    [Spanner.length] is the Euclidean norm of [end_pos] expressed in the
    unit type of the owner's [pos.x], and has that unit type (0 for an
    end position at the origin); when the end parent is another object,
    the call to the undefined [GraphicObject.map_between_items] raises
    [AttributeError] instead of returning a length. *)
Theorem spanner_length_end_parent_cases : forall self sp,
  let k := u_kind (ux (sn_pos self)) in
  (sp_end_parent sp = sp_owner sp ->
   spanner_length self sp
     = inr (mk_unit k (euclid (rpoint_to_unit k (base_point (sp_end_pos sp))))) /\
   (base_point (sp_end_pos sp) = (0, 0) ->
    spanner_length self sp = inr (mk_unit k 0))) /\
  (sp_end_parent sp <> sp_owner sp ->
   spanner_length self sp = inl AttributeError).
Proof.
  intros self sp k. split.
  - intros He. unfold spanner_length. rewrite He, Nat.eqb_refl. fold k.
    split.
    + unfold euclid. cbv zeta. do 3 f_equal. ring.
    + intros Hz. rewrite Hz. unfold rpoint_to_unit. cbn [fst snd].
      unfold Rdiv. rewrite Rmult_0_l.
      replace (0 ^ 2 + 0 ^ 2) with 0 by ring. rewrite sqrt_0. reflexivity.
  - intros Hne. unfold spanner_length.
    apply Nat.eqb_neq in Hne. rewrite Hne. reflexivity.
Qed.
End SpannerProofs.

(** ** Qt clipping path *)

Section ClippingProofs.
Local Open Scope Q_scope.

(** Claim C9 (code defect).  For a path whose bounding rect starts at
    x = 5 with width 10 (right edge at 15), [clip_start_x = 0],
    [clip_width = None] and no padding, the code resolves the clip width
    to [width - (x + clip_start_x)] = 5, while the distance from the clip
    start (5, or 0 before adding the rect's x) to the right edge is 10
    (or 15): the region does not reach the content's end. *)
Lemma clip_width_none_falls_short :
  let br := mk_qrectf 5 0 10 10 in
  qr_w (calculate_bounding_rect br 0 None 0) == 5 /\
  ~ (qr_w (calculate_bounding_rect br 0 None 0) ==
     (qr_x br + qr_w br) - (qr_x br + 0) + 0 * 2) /\
  ~ (qr_w (calculate_bounding_rect br 0 None 0) ==
     (qr_x br + qr_w br) - 0 + 0 * 2).
Proof.
  split; [|split]; vm_compute; [reflexivity|discriminate|discriminate].
Qed.
End ClippingProofs.

(** ** Repeating music text *)

Section RepeatingProofs.
Local Open Scope Q_scope.

(** Claim C10 refuted as stated: a line whose stop lies left of its start
    (length -5) with a text 2 wide gets [int(-2.5) = -2] repetitions, not
    [floor(-2.5) = -3]; the text is empty, so the drawn width 0 exceeds
    the length -5. *)
Lemma repetitions_negative_length :
  repetitions_needed (-5) 2 = Some (-2)%Z /\
  Qfloor ((-5) / 2) = (-3)%Z /\
  (forall s, py_str_mul s (-2) = String.EmptyString) /\
  ~ (drawn_width 2 (-2) <= -5).
Proof.
  split; [|split; [|split]]; [reflexivity|reflexivity|intros s; reflexivity|].
  vm_compute. intros H. apply H. reflexivity.
Qed.

(** Claim C10 (as amended).  For a line whose stop lies at or right of its
    start (length [>= 0]) and a text of positive width, the number of
    repetitions is [floor(length / width)], non-negative, and the drawn
    width is at most the length; when one repetition is wider than the
    line, there are no repetitions and the text is empty. *)
Theorem repetitions_floor : forall (length base_width : Q) text,
  0 <= length -> 0 < base_width ->
  exists reps, repetitions_needed length base_width = Some reps /\
    reps = Qfloor (length / base_width) /\ (0 <= reps)%Z /\
    drawn_width base_width reps <= length /\
    (length < base_width -> reps = 0%Z /\ py_str_mul text reps = String.EmptyString).
Proof.
  intros len bw text Hlen Hbw.
  assert (Hbw0 : ~ bw == 0) by (intros E; rewrite E in Hbw; discriminate).
  assert (Hq : 0 <= len / bw).
  { apply Qle_shift_div_l; [exact Hbw|]. rewrite Qmult_0_l. exact Hlen. }
  assert (Hfl : py_int (len / bw) = Qfloor (len / bw)).
  { unfold py_int, Qfloor. destruct (len / bw) as [num den].
    unfold Qle in Hq. simpl in Hq.
    apply Z.quot_div_nonneg; lia. }
  assert (Hnn : (0 <= Qfloor (len / bw))%Z).
  { unfold Qfloor. destruct (len / bw) as [num den].
    unfold Qle in Hq. simpl in Hq. apply Z.div_pos; lia. }
  assert (Hle : inject_Z (Qfloor (len / bw)) * bw <= len).
  { apply Qle_trans with ((len / bw) * bw).
    - apply Qmult_le_r; [exact Hbw|]. apply Qfloor_le.
    - rewrite Qmult_comm, Qmult_div_r by exact Hbw0. apply Qle_refl. }
  exists (Qfloor (len / bw)). unfold repetitions_needed.
  replace (Qeq_bool bw 0) with false
    by (symmetry; apply not_true_iff_false; intros E;
        apply Qeq_bool_eq in E; contradiction).
  rewrite Hfl. split; [reflexivity|]. split; [reflexivity|].
  split; [exact Hnn|]. split.
  - unfold drawn_width. rewrite Z2Nat.id by exact Hnn. exact Hle.
  - intros Hlt.
    assert (Hlt1 : len / bw < 1).
    { apply Qlt_shift_div_r; [exact Hbw|]. rewrite Qmult_1_l. exact Hlt. }
    assert (Hz : (Qfloor (len / bw) < 1)%Z).
    { rewrite Zlt_Qlt. apply Qle_lt_trans with (len / bw);
        [apply Qfloor_le|exact Hlt1]. }
    assert (H0 : Qfloor (len / bw) = 0%Z) by lia.
    rewrite H0. split; reflexivity.
Qed.
End RepeatingProofs.

(** * Instances of the theorems at concrete inputs *)

(** [break_tiling] on a live width of 100 and a frame of length 350 at
    offset 0. *)
Lemma break_tiling_witness :
  let pp := mk_paper 210 297 20 20 100 257 in
  let fr := mk_frame 0 0 350 50 20 in
  (0 < live_width pp /\ frame_x fr < live_width pp /\ 0 <= frame_width fr) /\
  (let cs := auto_layout_controllers pp fr in
   let segs := slice_lengths 0 (triggers cs) (frame_width fr) in
   Sorted Z.lt (triggers cs) /\
   Forall (fun t => t < frame_width fr) (triggers cs) /\
   match segs with
   | s :: rest => 0 <= s <= live_width pp - frame_x fr /\
                  Forall (fun s => 0 <= s <= live_width pp) rest
   | [] => False
   end /\
   (0 <= frame_x fr -> Forall (fun s => s <= live_width pp) segs) /\
   sumZ segs = frame_width fr /\
   (frame_width fr = 0 -> cs = [])).
Proof.
  intros pp fr. split.
  - unfold pp, fr; simpl; lia.
  - apply (break_tiling pp fr); unfold pp, fr; simpl; lia.
Defined.

(** [render_zero_width_no_split] on a zero-width object at local x = 50
    of a frame of length 350. *)
Lemma render_zero_width_no_split_witness :
  let fr := mk_frame 0 0 350 50 20 in
  let o := object_in_frame 50 3 0 in
  (frame (sample_tree 350) o = Some fr /\
   0 < live_width (doc_paper sample_document) /\
   g_breakable_width o = 0 /\ fst (g_pos o) < frame_width fr) /\
  render all_callbacks sample_document (sample_tree 350) o =
    call all_callbacks (RenderComplete (local_space_to_doc_space
      sample_document fr
      (auto_layout_controllers (doc_paper sample_document) fr) (g_pos o))).
Proof.
  intros fr o. split.
  - vm_compute. repeat split; reflexivity.
  - apply render_zero_width_no_split; vm_compute; reflexivity.
Defined.

(** [render_across_one_break] on an object at local x = 99, 10 wide, in a
    frame of length 350 on a live width of 100. *)
Lemma render_across_one_break_witness :
  let d := sample_document in
  let fr := mk_frame 0 0 350 50 20 in
  let o := object_in_frame 99 3 10 in
  (frame (sample_tree 350) o = Some fr /\ 10 < live_width (doc_paper d) /\
   frame_x fr = 0 /\ live_width (doc_paper d) < frame_width fr /\
   g_pos o = (live_width (doc_paper d) - 1, 3) /\ g_breakable_width o = 10 /\
   impl_before_break all_callbacks = true /\
   impl_after_break all_callbacks = true) /\
  (let W := live_width (doc_paper d) in
   let cs := auto_layout_controllers (doc_paper d) fr in
   let s1 := local_space_to_doc_space d fr cs (W - 1, 3) in
   let s2 := local_space_to_doc_space d fr cs (W, 3) in
   render all_callbacks d (sample_tree 350) o =
     ([RenderBeforeBreak s1 (padd s1 (1, 0));
       RenderAfterBreak s2 (padd s2 (9, 0))], inr tt) /\
   fst (padd s1 (1, 0)) =
     fst (page_origin_in_doc_space d 0) + margin_left (doc_paper d) + W /\
   fst s2 = fst (page_origin_in_doc_space d (count_new_pages (firstn 1 cs)))
            + margin_left (doc_paper d)).
Proof.
  intros d fr o. split.
  - vm_compute. repeat split; reflexivity.
  - apply (render_across_one_break all_callbacks d (sample_tree 350) o fr 3);
      vm_compute; reflexivity.
Defined.

Section RepeatingInstances.
Local Open Scope Q_scope.

(** [repetitions_floor] on a line 7 long and a text 2 wide. *)
Lemma repetitions_floor_witness :
  (0 <= 7 /\ 0 < 2) /\
  exists reps, repetitions_needed 7 2 = Some reps /\
    reps = Qfloor (7 / 2) /\ (0 <= reps)%Z /\
    drawn_width 2 reps <= 7 /\
    (7 < 2 -> reps = 0%Z /\
              py_str_mul String.EmptyString reps = String.EmptyString).
Proof.
  split.
  - split; vm_compute; [discriminate|reflexivity].
  - apply (repetitions_floor 7 2 String.EmptyString);
      vm_compute; [discriminate|reflexivity].
Defined.
End RepeatingInstances.

(* ================================================================== *)
(** * Further properties of the rendering code *)

Lemma sumZ_app : forall l1 l2, sumZ (l1 ++ l2) = sumZ l1 + sumZ l2.
Proof.
  induction l1 as [|a l1 IH]; intros l2; simpl; [reflexivity|].
  rewrite IH. ring.
Qed.

Lemma slice_width_span_of : forall to_doc y l,
  map slice_width (map (span_of to_doc y) l) = map ctrl_length l.
Proof.
  intros to_doc y l. induction l as [|cl l IH]; simpl; [reflexivity|].
  rewrite IH. f_equal. unfold padd. simpl. ring.
Qed.

Lemma call_all_callbacks : forall e, call all_callbacks e = ([e], inr tt).
Proof. intros []; reflexivity. Qed.

(** With all four callbacks, the spanning loop renders whole lines, one
    per consumed controller, and leaves a non-negative remaining width. *)
Lemma spanning_loop_all_callbacks : forall d fr cs y rest remaining current
    es r,
  0 <= remaining ->
  spanning_loop (call all_callbacks) d fr cs y remaining current rest
    = (es, r) ->
  exists k rem' cur', r = inr (rem', cur') /\
    es = map (span_of (local_space_to_doc_space d fr cs) y) (firstn k rest) /\
    rem' = remaining - sumZ (map ctrl_length (firstn k rest)) /\
    0 <= rem' /\
    (k <= length rest)%nat /\
    (forall i cl, (i < k)%nat -> nth_error rest i = Some cl ->
       ctrl_length cl < remaining - sumZ (map ctrl_length (firstn i rest))) /\
    (k = length rest \/
     exists cl, nth_error rest k = Some cl /\ rem' <= ctrl_length cl /\
                cur' = cl).
Proof.
  intros d fr cs y rest. induction rest as [|cl rest IH];
    intros remaining current es r Hr H; cbn [spanning_loop] in H.
  - injection H as <- <-. exists 0%nat, remaining, current.
    simpl. repeat split; [ring|exact Hr|lia| |].
    + intros i cl Hi. lia.
    + left. reflexivity.
  - destruct (Z.ltb_spec (ctrl_length cl) remaining) as [Hlt|Hge].
    + rewrite call_all_callbacks in H. unfold bind at 1 in H.
      destruct (spanning_loop (call all_callbacks) d fr cs y
                  (remaining - ctrl_length cl) cl rest) as [es' r'] eqn:E.
      injection H as <- <-.
      destruct (IH (remaining - ctrl_length cl) cl es' r') as
        (k & rem' & cur' & -> & -> & Hrem & Hnn & Hk & Hcross & Hstop);
        [lia|exact E|].
      exists (S k), rem', cur'. split; [reflexivity|]. split; [reflexivity|].
      split; [rewrite Hrem; unfold sumZ; simpl; ring|].
      split; [exact Hnn|]. split; [simpl; lia|]. split.
      * intros [|i] cl' Hi Hnth.
        -- simpl in Hnth. injection Hnth as <-. simpl. lia.
        -- simpl in Hnth. specialize (Hcross i cl' ltac:(lia) Hnth).
           change (sumZ (map ctrl_length (firstn (S i) (cl :: rest))))
             with (ctrl_length cl + sumZ (map ctrl_length (firstn i rest))).
           lia.
      * destruct Hstop as [Hk'|(cl' & Hnth & Hle & Hc)].
        -- left. simpl. lia.
        -- right. exists cl'. simpl. auto.
    + injection H as <- <-. exists 0%nat, remaining, cl.
      simpl. repeat split; [ring|exact Hr|lia| |].
      * intros i cl' Hi. lia.
      * right. exists cl. auto.
Qed.

(** Rendering an object whose class implements all four callbacks never
    fails with [NotImplementedError]: the only error is the [IndexError]
    of a missing break controller, raised before any callback is made. *)
Theorem render_all_callbacks_error : forall d tree o evs e,
  render all_callbacks d tree o = (evs, inl e) -> e = IndexError /\ evs = [].
Proof.
  intros d tree o evs e H. unfold render, render_with in H.
  destruct (frame tree o) as [fr|];
    [|rewrite call_all_callbacks in H; discriminate].
  set (cs := auto_layout_controllers (doc_paper d) fr) in H.
  destruct o as [[x y] bw par kd]. unfold render_flowable_with in H.
  cbn [g_pos g_breakable_width] in H.
  destruct (Z.ltb_spec (bw + x_pos_rel_to_line_end (doc_paper d) fr cs x) 0)
    as [Hlt|Hge]; [rewrite call_all_callbacks in H; discriminate|].
  destruct (py_index cs (last_break_index_at cs x)) as [current|].
  - rewrite call_all_callbacks in H. unfold bind at 1 in H.
    destruct (spanning_loop (call all_callbacks) d fr cs y _ current _)
      as [es r] eqn:E.
    destruct (spanning_loop_all_callbacks _ _ _ _ _ _ _ _ _ Hge E)
      as (k & rem' & cur' & -> & _).
    unfold bind in H. rewrite call_all_callbacks in H. discriminate.
  - unfold raise in H. injection H as <- <-. split; reflexivity.
Qed.

(** The calls _render_flowable makes with all four callbacks, when it
    returns normally: a single [RenderComplete] at the mapped position when
    the object ends before its line's end; otherwise one
    [RenderBeforeBreak] from the mapped position to the line's end, then
    one [RenderSpanningContinuation] over each following line, in order,
    as long as the width still to place exceeds that line's length (so
    the number [k] of continuations is fixed by the line lengths: either
    every following line is crossed, or the [k]-th following line is the
    first one long enough to hold the rest), and one [RenderAfterBreak],
    horizontal, starting at the origin of that line and as wide as the
    width left over; the widths of these slices add up to the object's
    [breakable_width]. *)
Theorem render_flowable_all_callbacks_shape : forall d fr cs o evs,
  render_flowable_with (call all_callbacks) d fr cs o = (evs, inr tt) ->
  let x := fst (g_pos o) in
  let y := snd (g_pos o) in
  let rel := x_pos_rel_to_line_end (doc_paper d) fr cs x in
  let to_doc := local_space_to_doc_space d fr cs in
  let start := to_doc (g_pos o) in
  let rest := skipn (Z.to_nat (last_break_index_at cs x + 1)) cs in
  (g_breakable_width o + rel < 0 /\ evs = [RenderComplete start]) \/
  (0 <= g_breakable_width o + rel /\
   exists k a b,
     evs = RenderBeforeBreak start (padd start (- rel, 0)) ::
           map (span_of to_doc y) (firstn k rest)
           ++ [RenderAfterBreak a b] /\
     (k <= length rest)%nat /\
     (forall i cl, (i < k)%nat -> nth_error rest i = Some cl ->
        ctrl_length cl
          < g_breakable_width o + rel - sumZ (map ctrl_length (firstn i rest))) /\
     (k = length rest \/
      exists cl, nth_error rest k = Some cl /\
        fst b - fst a <= ctrl_length cl /\ a = to_doc (ctrl_x cl, y)) /\
     snd b = snd a /\
     fst b - fst a
       = g_breakable_width o + rel - sumZ (map ctrl_length (firstn k rest)) /\
     0 <= fst b - fst a /\
     sumZ (map slice_width evs) = g_breakable_width o).
Proof.
  intros d fr cs [[x y] bw par kd] evs H. unfold render_flowable_with in H.
  cbn [g_pos g_breakable_width fst snd] in *.
  set (rel := x_pos_rel_to_line_end (doc_paper d) fr cs x) in *.
  set (to_doc := local_space_to_doc_space d fr cs) in *.
  set (start := to_doc (x, y)) in *.
  set (rest := skipn (Z.to_nat (last_break_index_at cs x + 1)) cs) in *.
  destruct (Z.ltb_spec (bw + rel) 0) as [Hlt|Hge].
  - left. rewrite call_all_callbacks in H. injection H as <-. split; auto.
  - right. split; [exact Hge|].
    destruct (py_index cs (last_break_index_at cs x)) as [current|];
      [|discriminate].
    rewrite call_all_callbacks in H. unfold bind at 1 in H.
    destruct (spanning_loop (call all_callbacks) d fr cs y (bw + rel) current
                rest)
      as [es r] eqn:E.
    destruct (spanning_loop_all_callbacks _ _ _ _ _ _ _ _ _ Hge E)
      as (k & rem' & cur' & -> & -> & Hrem & Hnn & Hk & Hcross & Hstop).
    unfold bind in H. rewrite call_all_callbacks in H. injection H as <-.
    set (a := to_doc (ctrl_x cur', y)).
    assert (Hw : fst (padd a (rem', 0)) - fst a = rem')
      by (unfold padd; simpl; ring).
    exists k, a, (padd a (rem', 0)).
    split; [f_equal; unfold padd; f_equal; ring|].
    split; [exact Hk|]. split; [exact Hcross|].
    split.
    { destruct Hstop as [Hk'|(cl & Hnth & Hle & Hc)]; [left; exact Hk'|].
      right. exists cl. rewrite Hw. subst a. rewrite Hc. auto. }
    split; [unfold padd; simpl; ring|].
    rewrite Hw. split; [exact Hrem|]. split; [exact Hnn|].
    assert (Hn : forall z, match z with 0 => 0 | Z.pos p => Z.neg p
                                | Z.neg p => Z.pos p end = - z)
      by (intros []; reflexivity).
    rewrite ?Hn. cbn [map]. rewrite map_app.
    change (sumZ (?h :: ?t)) with (h + sumZ t). rewrite sumZ_app.
    cbn [map]. rewrite slice_width_span_of.
    change (sumZ [?h]) with (h + 0). cbn [slice_width].
    unfold padd. cbn [fst]. rewrite Hrem. ring.
Qed.

(** ** Positions relative to the origin and to other objects *)

Lemma pos_rel_origin_loop_spec : forall to_doc tree n self_pos acc cur,
  pos_rel_origin_loop to_doc tree n self_pos acc cur =
  match frame_from tree n (g_parent cur) with
  | Some fr => to_doc fr self_pos
  | None =>
      pscale (padd acc (padd (g_pos cur) (chain_pos tree n (g_parent cur))))
        (-1)
  end.
Proof.
  intros to_doc tree n. induction n as [|n IH]; intros self_pos acc cur.
  - simpl. unfold pscale, padd. simpl. f_equal; ring.
  - simpl. destruct (g_parent cur) as [a|];
      [|unfold pscale, padd; simpl; f_equal; ring].
    destruct (nth_error tree a) as [p|];
      [|unfold pscale, padd; simpl; f_equal; ring].
    destruct (g_kind p) as [|fr]; [|reflexivity].
    rewrite IH. destruct (frame_from tree n (g_parent p)); [reflexivity|].
    unfold pscale, padd. simpl. f_equal; ring.
Qed.

(** GraphicObject.pos_relative_to_origin returns the object's
    [document_pos] when it is inside a flowable frame (mapping only its own
    [pos]: the positions of the ancestors between it and the frame are not
    added), and otherwise the negation of its [pos] summed with the
    positions of all its ancestors. *)
Theorem pos_relative_to_origin_cases : forall to_doc tree o,
  pos_relative_to_origin to_doc tree o =
  match document_pos to_doc tree o with
  | Some p => p
  | None => pscale (chain_document_pos tree o) (-1)
  end.
Proof.
  intros to_doc tree o. unfold pos_relative_to_origin, document_pos, frame.
  rewrite pos_rel_origin_loop_spec.
  destruct (frame_from tree (length tree) (g_parent o)); [reflexivity|].
  unfold chain_document_pos, pscale, padd. simpl. f_equal; ring.
Qed.

(** For two objects outside any flowable frame,
    [a.pos_relative_to_item(b)] is the position of [a] relative to [b]:
    [a]'s position summed through its ancestors minus [b]'s. *)
Theorem pos_relative_to_item_outside_frames : forall to_doc tree a b,
  frame tree a = None -> frame tree b = None ->
  pos_relative_to_item to_doc tree a b =
  psub (chain_document_pos tree a) (chain_document_pos tree b).
Proof.
  intros to_doc tree a b Ha Hb. unfold pos_relative_to_item.
  rewrite !pos_relative_to_origin_cases. unfold document_pos.
  rewrite Ha, Hb. unfold psub, pscale. cbn [fst snd]. f_equal; ring.
Qed.

(** For two objects inside flowable frames, [a.pos_relative_to_item(b)]
    is [b]'s mapped document position minus [a]'s: the opposite
    orientation of the result for objects outside frames. *)
Theorem pos_relative_to_item_in_frames : forall to_doc tree a b fa fb,
  frame tree a = Some fa -> frame tree b = Some fb ->
  pos_relative_to_item to_doc tree a b =
  psub (to_doc fb (g_pos b)) (to_doc fa (g_pos a)).
Proof.
  intros to_doc tree a b fa fb Ha Hb. unfold pos_relative_to_item.
  rewrite !pos_relative_to_origin_cases. unfold document_pos.
  rewrite Ha, Hb. reflexivity.
Qed.

(** ** The QClippingPath item *)

Section ClippingItemProofs.
Local Open Scope Q_scope.

(** A QClippingPath built with a non-zero scale [s] keeps its clipping
    region in unscaled units, as its docstring asks of the arguments:
    the padding times [s] is the pen width, and the clip rect, times [s],
    starts at [clip_start_x - pen_width] and, with an explicit clip
    width, ends at [clip_start_x + clip_width + pen_width]. *)
Theorem qclipping_path_init_unscaled_clip : forall br csx cw s pw it,
  qclipping_path_init br (Some csx) cw s pw = inr it ->
  ~ s == 0 /\
  qc_padding it * s == pw /\
  qr_x (qc_clip_rect it) * s == csx - pw /\
  match cw with
  | Some w =>
      (qr_x (qc_clip_rect it) + qr_w (qc_clip_rect it)) * s == csx + w + pw
  | None => True
  end.
Proof.
  intros br csx cw s pw it H. unfold qclipping_path_init in H.
  destruct (Qeq_bool s 0) eqn:E; [discriminate|].
  apply Qeq_bool_neq in E. injection H as <-.
  split; [exact E|]. cbn [update_geometry qc_padding qc_clip_rect
    qr_translated calculate_bounding_rect qr_x qr_w qc_path_rect
    qc_clip_start_x qc_clip_width].
  split; [field; exact E|]. split; [field; exact E|].
  destruct cw as [w|]; [simpl; field; exact E|exact I].
Qed.

(** QClippingPath.paint on an item whose geometry is up to date: the
    painter is moved left by [clip_start_x], and with a clip width the
    clip rect it sets covers, in the item's coordinates, exactly the
    item's bounding rect; without one, no clip is set. *)
Theorem paint_clip_is_bounding_rect : forall it0,
  let it := update_geometry it0 in
  let ps := run_painter (paint it) in
  pt_dx ps == - qc_clip_start_x it /\ pt_dy ps == 0 /\
  match qc_clip_width it with
  | Some _ => exists c, pt_clip ps = Some c /\ qr_eq c (qc_bounding_rect it)
  | None => pt_clip ps = None
  end.
Proof.
  intros it0. cbv zeta. unfold paint, run_painter.
  cbn [update_geometry qc_clip_start_x qc_clip_width qc_clip_rect
       qc_bounding_rect].
  set (cs := qc_clip_start_x it0).
  set (br := calculate_bounding_rect _ cs _ _). clearbody br.
  destruct (Qeq_bool cs 0) eqn:E; [apply Qeq_bool_eq in E|];
    destruct (qc_clip_width it0) as [w|];
    cbn [negb app fold_left painter_step pt_dx pt_dy pt_clip];
    (refine (conj _ (conj _ _)); [rewrite ?E; ring|ring|]);
    try reflexivity;
    (eexists; split; [reflexivity|]);
    unfold qr_eq, qr_translated; cbn [qr_x qr_y qr_w qr_h];
    rewrite ?E; repeat split; ring.
Qed.

End ClippingItemProofs.

(** ** Text alignment *)

Section TextProofs.
Local Open Scope Q_scope.

(** Text.bounding_rect keeps the raw rect's size and places it by the
    alignments: left-aligned text keeps the raw x, centred text is
    centred on [pos], right-aligned text ends at [pos]; baseline-aligned
    text keeps the raw y, vertically centred text is centred on [pos]. *)
Theorem text_bounding_rect_alignment : forall t,
  let b := text_bounding_rect t in
  let r := tx_raw_rect t in
  qr_w b == qr_w r /\ qr_h b == qr_h r /\
  match tx_halign t with
  | LEFT => qr_x b == qr_x r
  | CENTER => qr_x b + qr_w b / 2 == 0
  | RIGHT => qr_x b + qr_w b == 0
  end /\
  match tx_valign t with
  | BASELINE => qr_y b == qr_y r
  | VCENTER => qr_y b + qr_h b / 2 == 0
  end.
Proof.
  intros [r brk h v]. cbv zeta.
  destruct h, v; unfold text_bounding_rect, alignment_offset; simpl;
    repeat split; field.
Qed.

(** Text.breakable_length: zero for a non-breakable text; for a
    breakable one, the raw width when left-aligned, half of it minus the
    raw x when centred, and minus the raw x when right-aligned (so a
    right-aligned text whose glyphs start at or right of its origin is
    never broken). *)
Theorem breakable_length_alignment : forall t,
  breakable_length t ==
  if tx_breakable t then
    match tx_halign t with
    | LEFT => qr_w (tx_raw_rect t)
    | CENTER => qr_w (tx_raw_rect t) / 2 - qr_x (tx_raw_rect t)
    | RIGHT => - qr_x (tx_raw_rect t)
    end
  else 0.
Proof.
  intros [r [|] h v]; [|reflexivity].
  destruct h, v; unfold breakable_length, text_bounding_rect,
    alignment_offset; simpl; field.
Qed.
End TextProofs.

(** ** Instances of the further properties *)

(** [render_all_callbacks_error] on an object reaching the end of the
    only line of a frame that has no break controller. *)
Lemma render_all_callbacks_error_witness :
  render all_callbacks sample_document (sample_tree 100)
    (object_in_frame 99 3 10) = ([], inl IndexError) /\
  IndexError = IndexError /\ @nil render_event = [].
Proof.
  split; [vm_compute; reflexivity|].
  apply (render_all_callbacks_error sample_document (sample_tree 100)
           (object_in_frame 99 3 10)).
  vm_compute. reflexivity.
Defined.

(** [render_flowable_all_callbacks_shape] on an object 150 wide starting
    at x = 99 of a frame of length 350 on lines 100 wide: it crosses one
    whole line. *)
Lemma render_flowable_all_callbacks_shape_witness :
  let d := sample_document in
  let fr := mk_frame 0 0 350 50 20 in
  let cs := auto_layout_controllers (doc_paper d) fr in
  let o := object_in_frame 99 3 150 in
  exists evs,
  render_flowable_with (call all_callbacks) d fr cs o = (evs, inr tt) /\
  (let x := fst (g_pos o) in
   let y := snd (g_pos o) in
   let rel := x_pos_rel_to_line_end (doc_paper d) fr cs x in
   let to_doc := local_space_to_doc_space d fr cs in
   let start := to_doc (g_pos o) in
   let rest := skipn (Z.to_nat (last_break_index_at cs x + 1)) cs in
   (g_breakable_width o + rel < 0 /\ evs = [RenderComplete start]) \/
   (0 <= g_breakable_width o + rel /\
    exists k a b,
      evs = RenderBeforeBreak start (padd start (- rel, 0)) ::
            map (span_of to_doc y) (firstn k rest)
            ++ [RenderAfterBreak a b] /\
      (k <= length rest)%nat /\
      (forall i cl, (i < k)%nat -> nth_error rest i = Some cl ->
         ctrl_length cl
           < g_breakable_width o + rel - sumZ (map ctrl_length (firstn i rest))) /\
      (k = length rest \/
       exists cl, nth_error rest k = Some cl /\
         fst b - fst a <= ctrl_length cl /\ a = to_doc (ctrl_x cl, y)) /\
      snd b = snd a /\
      fst b - fst a
        = g_breakable_width o + rel - sumZ (map ctrl_length (firstn k rest)) /\
      0 <= fst b - fst a /\
      sumZ (map slice_width evs) = g_breakable_width o)).
Proof.
  intros d fr cs o. eexists. split; [vm_compute; reflexivity|].
  apply (render_flowable_all_callbacks_shape d fr cs o).
  vm_compute. reflexivity.
Defined.

(** [pos_relative_to_item_outside_frames] on a child at (1, 0) of a root
    at (5, 0), relative to a root at (2, 3). *)
Lemma pos_relative_to_item_outside_frames_witness :
  let tree := [mk_graphic_object (5, 0) 0 None PlainObject] in
  let a := mk_graphic_object (1, 0) 0 (Some 0%nat) PlainObject in
  let b := mk_graphic_object (2, 3) 0 None PlainObject in
  let to_doc := fun (_ : flowable_frame) (p : point) => p in
  (frame tree a = None /\ frame tree b = None) /\
  pos_relative_to_item to_doc tree a b =
  psub (chain_document_pos tree a) (chain_document_pos tree b).
Proof.
  intros tree a b to_doc. split; [split; reflexivity|].
  apply pos_relative_to_item_outside_frames; reflexivity.
Defined.

(** [pos_relative_to_item_in_frames] on two objects of the frame of
    [sample_tree 350], on its first and second lines. *)
Lemma pos_relative_to_item_in_frames_witness :
  let tree := sample_tree 350 in
  let fr := mk_frame 0 0 350 50 20 in
  let a := object_in_frame 10 0 0 in
  let b := object_in_frame 120 0 0 in
  let to_doc := fun (f : flowable_frame) (p : point) =>
    local_space_to_doc_space sample_document f
      (auto_layout_controllers (doc_paper sample_document) f) p in
  (frame tree a = Some fr /\ frame tree b = Some fr) /\
  pos_relative_to_item to_doc tree a b =
  psub (to_doc fr (g_pos b)) (to_doc fr (g_pos a)).
Proof.
  intros tree fr a b to_doc. split; [split; reflexivity|].
  apply pos_relative_to_item_in_frames; reflexivity.
Defined.

Section ClippingInstances.
Local Open Scope Q_scope.

(** [qclipping_path_init_unscaled_clip] on a path 40 wide at x = 5,
    clipped from 3 over 50 at scale 2 with a pen 1 wide. *)
Lemma qclipping_path_init_unscaled_clip_witness :
  let br := mk_qrectf 5 0 40 10 in
  exists it,
  qclipping_path_init br (Some 3) (Some 50) 2 1 = inr it /\
  (~ 2 == 0 /\
   qc_padding it * 2 == 1 /\
   qr_x (qc_clip_rect it) * 2 == 3 - 1 /\
   (qr_x (qc_clip_rect it) + qr_w (qc_clip_rect it)) * 2 == 3 + 50 + 1).
Proof.
  intros br. eexists. split; [reflexivity|].
  apply (qclipping_path_init_unscaled_clip br 3 (Some 50) 2 1).
  reflexivity.
Defined.

End ClippingInstances.
